(** * ProgressHandler: a logging StreamHandler with same-line and overwrite modes

    Shallow embedding of [ProgressHandler.emit] (src/ProgressHandler.py) and
    proofs of the properties its specification states about it.

    The handler is a Python object with two mutable flags and an output
    stream; [emit] runs inside a [try] block whose exceptions are either
    re-raised (interrupts) or handed to [handleError].  We therefore model
    Python statements as computations in a state-and-exception monad over the
    handler object: state changes made before an exception is raised are
    kept, exactly as attribute assignments are in Python.

    [handleError] is inherited from [logging.Handler]; it prints a report on
    [sys.stderr], which is the handler's own stream unless the handler was
    given another one, and it lets through every exception but an
    [OSError].  It is embedded from the standard library, with the texts it
    prints taken as given. *)

From stdpp Require Import base gmap strings list.
From Stdlib Require Import Ascii String DecimalString.

Local Open Scope string_scope.
Local Open Scope list_scope.

(** ** Python values, exceptions and results *)

(** Values that can be attached to a record through [extra={...}]. *)
Inductive PyValue : Type :=
  | PyNone
  | PyBool (b : bool)
  | PyInt (z : Z)
  | PyStr (s : string).

(** Exceptions, classified the way the [except] clauses of [emit] and of
    [handleError] classify them: the two interrupt classes named at line 63;
    [OSError] and its subclasses; [RecursionError]; the other subclasses of
    [Exception]; and the remaining subclasses of [BaseException]
    ([GeneratorExit] for one).  All but the interrupts are caught by the
    bare [except:] of line 65. *)
Inductive PyExc : Type :=
  | KeyboardInterrupt
  | SystemExit
  | OSError (cls : string)
  | RecursionError
  | OtherException (cls : string)
  | OtherBaseException (cls : string).

Definition is_interrupt (e : PyExc) : bool :=
  match e with
  | KeyboardInterrupt | SystemExit => true
  | _ => false
  end.

(** [except OSError], [except RecursionError], [except Exception]. *)
Definition is_OSError (e : PyExc) : bool :=
  match e with
  | OSError _ => true
  | _ => false
  end.

Definition is_RecursionError (e : PyExc) : bool :=
  match e with
  | RecursionError => true
  | _ => false
  end.

Definition is_Exception (e : PyExc) : bool :=
  match e with
  | OSError _ | RecursionError | OtherException _ => true
  | _ => false
  end.

Inductive result (A : Type) : Type :=
  | Ok (a : A)
  | Raise (e : PyExc).
Arguments Ok {A} a.
Arguments Raise {A} e.

(** ** Log records

    A record is what the logging framework hands to [emit].  [formatted] is
    the outcome of [self.format(record)] (the formatter is fixed for the
    handler), [message] the outcome of [record.getMessage()]; both are calls
    into the framework and may raise.  [attrs] holds the attributes that the
    caller attached with [extra={...}], keyed by attribute name. *)
Record LogRecord : Type := mkRecord {
  formatted : result string;
  message : result string;
  attrs : gmap string PyValue
}.

Definition format (record : LogRecord) : result string := formatted record.
Definition getMessage (record : LogRecord) : result string := message record.

(** [hasattr(record, name)]: presence of the attribute, whatever its value. *)
Definition hasattr (record : LogRecord) (name : string) : bool :=
  bool_decide (is_Some (attrs record !! name)).

(** ** Output stream

    The stream keeps the chunks passed to successful [write] calls, oldest
    first.  [faults] scripts the outcome of the coming stream operations
    ([write] or [flush]): [None] lets the operation succeed, [Some e] makes
    it raise [e]; once the script is used up every operation succeeds.  Any
    failure pattern of a real stream is one such script. *)
Record Stream : Type := mkStream {
  written : list string;
  faults : list (option PyExc)
}.

(** The characters that reached the stream. *)
Definition output (s : Stream) : string := foldr String.append EmptyString (written s).

(** ** The error channel

    [handleError] prints on [sys.stderr] when [logging.raiseExceptions] is
    set and [sys.stderr] is not [None]; otherwise it is silent.
    [StreamHandler.__init__] takes [sys.stderr] as the handler's stream when
    it is given none, so by default the report goes to the very stream the
    handler writes to. *)
Inductive ErrorChannel : Type :=
  | Silent
  | OwnStream
  | Separate (s : Stream).

(** The texts of one report.  They come from the traceback of the exception
    and from the call stack, which this repository does not determine:
    what [traceback.print_exception] writes, what [traceback.print_stack]
    (or the "Logged from file" line) writes, and the outcome of formatting
    the "Message: ... Arguments: ..." line, which may raise. *)
Record ErrorReport : Type := mkReport {
  traceback_chunks : list string;
  stack_chunks : list string;
  message_line : result string
}.

(** ** The handler object

    Besides the attributes of the handler, the state holds what the calls
    made by [emit] depend on: the channel of [handleError] and the report it
    prints for an exception and a record.  [reported] lists the records
    passed to [handleError]. *)
Record ProgressHandler : Type := mkHandler {
  on_same_line : bool;
  overwriting : bool;
  terminator : string;
  stream : Stream;
  reported : list LogRecord;
  stderr : ErrorChannel;
  error_report : PyExc -> LogRecord -> ErrorReport
}.

(** A report without traceback and stack lines and with an empty message
    line. *)
Definition bare_report : ErrorReport :=
  {| traceback_chunks := []; stack_chunks := []; message_line := Ok EmptyString |}.

(** A fresh handler: the class attributes of lines 26-27 and a stream that
    has received nothing.  [logging.StreamHandler] sets the terminator to a
    newline unless the caller changes it, and its stream is [sys.stderr]
    unless the caller gives another. *)
Definition new_handler (term : string) (script : list (option PyExc)) : ProgressHandler :=
  {| on_same_line := false;
     overwriting := false;
     terminator := term;
     stream := {| written := []; faults := script |};
     reported := [];
     stderr := OwnStream;
     error_report := fun _ _ => bare_report |}.

(** The same handler with another error channel and other report texts. *)
Definition with_errors (channel : ErrorChannel)
    (report : PyExc -> LogRecord -> ErrorReport) (self : ProgressHandler)
    : ProgressHandler :=
  {| on_same_line := on_same_line self;
     overwriting := overwriting self;
     terminator := terminator self;
     stream := stream self;
     reported := reported self;
     stderr := channel;
     error_report := report |}.

Definition newline : string := String (ascii_of_nat 10) EmptyString.

Definition ProgressHandler_default : ProgressHandler :=
  new_handler newline [].

(** ** Statements: state and exceptions *)

Definition Py (A : Type) : Type := ProgressHandler -> result A * ProgressHandler.

Definition ret {A} (a : A) : Py A := fun self => (Ok a, self).

Definition raise {A} (e : PyExc) : Py A := fun self => (Raise e, self).

Definition bind {A B} (m : Py A) (k : A -> Py B) : Py B :=
  fun self =>
    match m self with
    | (Ok a, self') => k a self'
    | (Raise e, self') => (Raise e, self')
    end.

(** [try: body except e: handler e]. *)
Definition try_except {A} (body : Py A) (handler : PyExc -> Py A) : Py A :=
  fun self =>
    match body self with
    | (Ok a, self') => (Ok a, self')
    | (Raise e, self') => handler e self'
    end.

(** A framework call whose outcome is already known. *)
Definition call {A} (r : result A) : Py A := fun self => (r, self).

(** Reading an attribute of [self]. *)
Definition attr {A} (field : ProgressHandler -> A) : Py A :=
  fun self => (Ok (field self), self).

Declare Scope py_scope.
Delimit Scope py_scope with py.
Notation "'let!' x ':=' m 'in' k" := (bind m (fun x => k))
  (at level 10, x name, m at level 100, k at level 200) : py_scope.
Notation "m '>>' k" := (bind m (fun _ => k))
  (at level 100, k at level 200, right associativity) : py_scope.
Local Open Scope py_scope.

(** Attribute assignments [self.on_same_line = b], [self.overwriting = b]. *)
Definition set_on_same_line (b : bool) : Py unit :=
  fun self =>
    (Ok tt, {| on_same_line := b;
               overwriting := overwriting self;
               terminator := terminator self;
               stream := stream self;
               reported := reported self;
               stderr := stderr self;
               error_report := error_report self |}).

Definition set_overwriting (b : bool) : Py unit :=
  fun self =>
    (Ok tt, {| on_same_line := on_same_line self;
               overwriting := b;
               terminator := terminator self;
               stream := stream self;
               reported := reported self;
               stderr := stderr self;
               error_report := error_report self |}).

Definition with_stream (s : Stream) (self : ProgressHandler) : ProgressHandler :=
  {| on_same_line := on_same_line self;
     overwriting := overwriting self;
     terminator := terminator self;
     stream := s;
     reported := reported self;
     stderr := stderr self;
     error_report := error_report self |}.

(** One stream operation consumes one entry of the fault script: it raises
    when the entry holds an exception, and otherwise appends [data] to what
    the stream has received. *)
Definition stream_op (data : list string) : Py unit :=
  fun self =>
    let s := stream self in
    match head (faults s) with
    | Some (Some e) =>
        (Raise e, with_stream {| written := written s; faults := tail (faults s) |} self)
    | _ =>
        (Ok tt, with_stream {| written := written s ++ data; faults := tail (faults s) |} self)
    end.

(** [stream.write(data)] *)
Definition write (data : string) : Py unit := stream_op [data].

(** [self.flush()] *)
Definition flush : Py unit := stream_op [].

(** ** [handleError]

    Embedded from [logging.Handler.handleError] of the standard library:

    [[
    if raiseExceptions and sys.stderr:
        t, v, tb = sys.exc_info()
        try:
            sys.stderr.write('--- Logging error ---\n')
            traceback.print_exception(t, v, tb, None, sys.stderr)
            sys.stderr.write('Call stack:\n')
            ... traceback.print_stack(frame, file=sys.stderr) ...
            try:
                sys.stderr.write('Message: %r\nArguments: %s\n' % (...))
            except RecursionError:
                raise
            except Exception:
                sys.stderr.write('Unable to print the message and ...')
        except OSError:
            pass
    ]] *)

(** One operation on a stream that is not the handler's. *)
Definition stream_put (data : list string) (s : Stream) : result unit * Stream :=
  match head (faults s) with
  | Some (Some e) =>
      (Raise e, {| written := written s; faults := tail (faults s) |})
  | _ =>
      (Ok tt, {| written := written s ++ data; faults := tail (faults s) |})
  end.

Definition with_stderr (channel : ErrorChannel) (self : ProgressHandler) : ProgressHandler :=
  {| on_same_line := on_same_line self;
     overwriting := overwriting self;
     terminator := terminator self;
     stream := stream self;
     reported := reported self;
     stderr := channel;
     error_report := error_report self |}.

(** [sys.stderr.write(data)] *)
Definition stderr_write (data : string) : Py unit :=
  fun self =>
    match stderr self with
    | Silent => (Ok tt, self)
    | OwnStream => write data self
    | Separate s =>
        let (r, s') := stream_put [data] s in (r, with_stderr (Separate s') self)
    end.

(** Several writes in a row, as the [traceback] functions do. *)
Fixpoint stderr_write_all (chunks : list string) : Py unit :=
  match chunks with
  | [] => ret tt
  | chunk :: rest => stderr_write chunk >> stderr_write_all rest
  end.

(** The call is recorded in [reported]. *)
Definition note_reported (record : LogRecord) : Py unit :=
  fun self =>
    (Ok tt, {| on_same_line := on_same_line self;
               overwriting := overwriting self;
               terminator := terminator self;
               stream := stream self;
               reported := reported self ++ [record];
               stderr := stderr self;
               error_report := error_report self |}).

Definition logging_error_header : string := "--- Logging error ---" +:+ newline.
Definition call_stack_header : string := "Call stack:" +:+ newline.
Definition unable_to_print : string :=
  "Unable to print the message and arguments - possible formatting error."
  +:+ newline +:+ "Use the traceback above to help find the error." +:+ newline.

(** The record as the report reads it: its message, arguments and
    position, never the attributes added through [extra]. *)
Definition without_extra (record : LogRecord) : LogRecord :=
  {| formatted := formatted record; message := message record; attrs := ∅ |}.

(** The body of [handleError], run while [exc] is being handled. *)
Definition report_error (record : LogRecord) (exc : PyExc) : Py unit :=
  let! channel := attr stderr in
  match channel with
  | Silent => ret tt
  | _ =>
      let! report := attr (fun self => error_report self exc (without_extra record)) in
      try_except
        (stderr_write logging_error_header >>
         stderr_write_all (traceback_chunks report) >>
         stderr_write call_stack_header >>
         stderr_write_all (stack_chunks report) >>
         try_except
           (let! line := call (message_line report) in stderr_write line)
           (fun e =>
              if is_RecursionError e then raise e
              else if is_Exception e then stderr_write unable_to_print
              else raise e))
        (fun e => if is_OSError e then ret tt else raise e)
  end.

(** [self.handleError(record)]: the report, and the record noted as
    reported however the report ends. *)
Definition handleError (record : LogRecord) (exc : PyExc) : Py unit :=
  fun self =>
    let (r, self') := report_error record exc self in
    (r, snd (note_reported record self')).

(** ** String helpers used at line 50 *)

Module curses_ascii.
Definition BS : nat := 8.
End curses_ascii.

(** ['%c' % n] *)
Definition percent_c (n : nat) : string := String (ascii_of_nat n) EmptyString.

(** [s * n] *)
Fixpoint str_mul (s : string) (n : nat) : string :=
  match n with
  | O => EmptyString
  | S n' => s +:+ str_mul s n'
  end.

(** [len(s)] *)
Definition len (s : string) : nat := String.length s.

(** ** [emit]

    [emit_try] is the body of the [try] block (lines 30-62), [emit] the whole
    method with its two [except] clauses (lines 63-66). *)
Definition emit_try (record : LogRecord) : Py unit :=
  let! msg := call (format record) in
  let same_line := hasattr record "same_line" in
  let overwrite := hasattr record "overwrite" in
  let! osl := attr on_same_line in
  let! ow := attr overwriting in
  (if osl && negb (same_line || ow)
   then let! t := attr terminator in write t
   else ret tt) >>
  let! osl := attr on_same_line in
  let! msg := (if osl then call (getMessage record) else ret msg) in
  write msg >>
  (if overwrite
   then let! raw := call (getMessage record) in
        write (str_mul (percent_c curses_ascii.BS) (len raw)) >>
        set_overwriting true
   else set_overwriting false) >>
  (if same_line || overwrite
   then set_on_same_line true
   else let! t := attr terminator in
        write t >>
        set_on_same_line false) >>
  flush.

Definition emit (record : LogRecord) : Py unit :=
  try_except (emit_try record)
    (fun e => if is_interrupt e then raise e else handleError record e).

(** A caller that logs several records in a row, stopping at the first
    exception that [emit] lets through. *)
Fixpoint emit_all (records : list LogRecord) : Py unit :=
  match records with
  | [] => ret tt
  | record :: rest => emit record >> emit_all rest
  end.

(** ** Sample records and handlers *)

(** [setattr(record, name, v)], as [extra={name: v}] does. *)
Definition with_attr (name : string) (v : PyValue) (record : LogRecord) : LogRecord :=
  {| formatted := formatted record;
     message := message record;
     attrs := <[name := v]> (attrs record) |}.

(** A record as [logging.info(raw, extra=extra)] builds it when the
    formatter yields [fmt]. *)
Definition log_record (fmt raw : string) (extra : gmap string PyValue) : LogRecord :=
  {| formatted := Ok fmt; message := Ok raw; attrs := extra |}.

Definition same_line_extra : gmap string PyValue := {[ "same_line" := PyBool true ]}.
Definition overwrite_extra : gmap string PyValue := {[ "overwrite" := PyBool true ]}.

(** The rewind sequence of a body of [n] characters. *)
Definition backspaces (n : nat) : string := str_mul (percent_c curses_ascii.BS) n.

Definition plain_hello : LogRecord := log_record "X: Hello" "Hello" ∅.
Definition same_a : LogRecord := log_record "X: a" "a" same_line_extra.
Definition same_b : LogRecord := log_record "X: b" "b" same_line_extra.
Definition loading : LogRecord := log_record "Loading" "Loading" overwrite_extra.
Definition done : LogRecord := log_record "X: Done" "Done" ∅.

(** The default handler after one same-line record, after one overwrite
    record. *)
Definition after_same_a : ProgressHandler := snd (emit same_a ProgressHandler_default).
Definition after_loading : ProgressHandler := snd (emit loading ProgressHandler_default).

(** A stream whose first operation fails with a broken pipe. *)
Definition broken_pipe : PyExc := OSError "BrokenPipeError".


(** [ValueError] is what writing to a closed file raises.  The handler of
    [ProgressHandler()] once [sys.stderr] is closed: its stream is
    [sys.stderr], on which the coming writes fail. *)
Definition value_error : PyExc := OtherException "ValueError".

Definition closed_stream_handler : ProgressHandler :=
  new_handler newline [Some value_error; Some value_error].

(** A record whose formatting fails. *)
Definition bad_format : LogRecord :=
  {| formatted := Raise (OtherException "TypeError");
     message := Raise (OtherException "TypeError");
     attrs := same_line_extra |}.

(** The plain record "Hello" with [extra={'same_line': False}]. *)
Definition hello_same_line_False : LogRecord :=
  with_attr "same_line" (PyBool false) plain_hello.

(** ** Observations on runs *)

(** [wrote self self' chunks]: between the two handler states exactly
    [chunks] were written to the stream, in that order. *)
Definition wrote (self self' : ProgressHandler) (chunks : list string) : Prop :=
  written (stream self') = written (stream self) ++ chunks.

(** Number of occurrences of a character in a string, in a list of chunks. *)
Fixpoint count_char (c : ascii) (s : string) : nat :=
  match s with
  | EmptyString => 0
  | String c' s' => (if Ascii.eqb c c' then 1 else 0) + count_char c s'
  end.

Definition count_chunks (c : ascii) (chunks : list string) : nat :=
  foldr (fun s n => count_char c s + n) 0 chunks.

Definition BS_char : ascii := ascii_of_nat curses_ascii.BS.

(** Every character of the string is [c]. *)
Fixpoint all_chars (c : ascii) (s : string) : bool :=
  match s with
  | EmptyString => true
  | String c' s' => Ascii.eqb c c' && all_chars c s'
  end.

(** The two flags of the handler. *)
Definition flags (self : ProgressHandler) : bool * bool :=
  (on_same_line self, overwriting self).

(** Handler states that a caller can observe: a fresh handler, whatever
    its error channel and report texts, and whatever any number of [emit]
    calls make of it, however each call ends. *)
Inductive reachable : ProgressHandler -> Prop :=
  | reachable_new term script channel report :
      reachable (with_errors channel report (new_handler term script))
  | reachable_emit record self :
      reachable self -> reachable (snd (emit record self)).

(** ** Weakest preconditions

    [wp m Q E self]: running [m] from [self] either returns [a] in a state
    satisfying [Q a], or raises [e] in a state satisfying [E e]. *)
Definition wp {A} (m : Py A) (Q : A -> ProgressHandler -> Prop)
    (E : PyExc -> ProgressHandler -> Prop) (self : ProgressHandler) : Prop :=
  match m self with
  | (Ok a, self') => Q a self'
  | (Raise e, self') => E e self'
  end.

Definition pushed (data : list string) (self : ProgressHandler) : ProgressHandler :=
  with_stream {| written := written (stream self) ++ data;
                 faults := tail (faults (stream self)) |} self.

Definition refused (self : ProgressHandler) : ProgressHandler :=
  with_stream {| written := written (stream self);
                 faults := tail (faults (stream self)) |} self.

(** ** What a completed call does

    The chunks a call writes, in order: the optional leading terminator
    (lines 37-38), the message text (lines 42-46), the optional rewind (line
    50) and the optional closing terminator (line 60). *)
Definition opening (record : LogRecord) (self : ProgressHandler) : list string :=
  if on_same_line self && negb (hasattr record "same_line" || overwriting self)
  then [terminator self] else [].

Definition message_text (record : LogRecord) (self : ProgressHandler) : result string :=
  if on_same_line self then getMessage record else format record.

Definition rewind (record : LogRecord) : list string :=
  if hasattr record "overwrite"
  then match getMessage record with
       | Ok raw => [backspaces (len raw)]
       | Raise _ => []
       end
  else [].

Definition closing (record : LogRecord) (self : ProgressHandler) : list string :=
  if hasattr record "same_line" || hasattr record "overwrite"
  then [] else [terminator self].

(** [completes record self self']: the [try] block of [emit record] ran to
    its end from [self] and left the handler as [self']. *)
Definition completes (record : LogRecord) (self self' : ProgressHandler) : Prop :=
  emit_try record self = (Ok tt, self').

(** The handler after a completed call. *)
Definition effect (record : LogRecord) (self self' : ProgressHandler) : Prop :=
  exists fmt text,
    format record = Ok fmt /\
    message_text record self = Ok text /\
    (hasattr record "overwrite" = true -> exists raw, getMessage record = Ok raw) /\
    on_same_line self' = hasattr record "same_line" || hasattr record "overwrite" /\
    overwriting self' = hasattr record "overwrite" /\
    terminator self' = terminator self /\
    reported self' = reported self /\
    wrote self self'
      (opening record self ++ [text] ++ rewind record ++ closing record self).

(** What holds of the handler however the [try] block ends: it reports
    nothing, keeps the terminator, and keeps the flags consistent. *)
Definition flags_ok (self : ProgressHandler) : Prop :=
  overwriting self = true -> on_same_line self = true.

Definition frame (self self' : ProgressHandler) : Prop :=
  reported self' = reported self /\
  terminator self' = terminator self /\
  (flags_ok self -> flags_ok self').

(** A stream whose next four operations succeed lets the [try] block run to
    its end (a call performs at most four stream operations). *)
Definition accepts (n : nat) (s : Stream) : bool :=
  forallb (fun f => match f with None => true | Some _ => false end) (take n (faults s)).

(** ** Whole calls and runs of calls *)

(** The text chunk a framework call contributes: nothing when it raised. *)
Definition text_of (r : result string) : list string :=
  match r with
  | Ok text => [text]
  | Raise _ => []
  end.

(** Everything a call writes when nothing stops it, in order. *)
Definition call_chunks (record : LogRecord) (self : ProgressHandler) : list string :=
  opening record self ++ text_of (message_text record self)
    ++ rewind record ++ closing record self.

(** A record carrying neither attribute; a record carrying [same_line]
    only. *)
Definition plain (record : LogRecord) : bool :=
  negb (hasattr record "same_line") && negb (hasattr record "overwrite").

Definition same_line_only (record : LogRecord) : bool :=
  hasattr record "same_line" && negb (hasattr record "overwrite").

Definition succeeded {A} (r : result A) : bool :=
  match r with
  | Ok _ => true
  | Raise _ => false
  end.

(** A framework call, a fault script, that raises no interrupt. *)
Definition benign {A} (r : result A) : bool :=
  match r with
  | Ok _ => true
  | Raise e => negb (is_interrupt e)
  end.

Definition calm (script : list (option PyExc)) : bool :=
  forallb (fun f => match f with
                    | None => true
                    | Some e => negb (is_interrupt e)
                    end) script.

(** ** The demonstration script (lines 68-99)

    [logging.basicConfig(level=logging.DEBUG, handlers=[progress_handler])]
    makes every [logging.info] call of the script reach [emit] once, with a
    record whose message is the format string applied to its arguments.
    The text that the handler's formatter makes of a message is a parameter
    of the script.  [time.sleep] does not touch the handler. *)

(** ['%i ' % i] *)
Definition percent_i_space (i : nat) : string :=
  NilZero.string_of_uint (Nat.to_uint i) +:+ " ".

(** [logging.info(msg, extra=extra)] as seen by the handler. *)
Definition info (formatter : string -> string) (msg : string)
    (extra : gmap string PyValue) : LogRecord :=
  log_record (formatter msg) msg extra.

Definition overwrite_same_line_extra : gmap string PyValue :=
  {[ "overwrite" := PyBool true; "same_line" := PyBool true ]}.

Definition main_records (formatter : string -> string) : list LogRecord :=
  [ info formatter "Regular message" ∅;
    info formatter "Messages on the same line: " same_line_extra ]
  ++ map (fun i => info formatter (percent_i_space i) same_line_extra) (seq 0 5)
  ++ [ info formatter "A regular message automatically adds a trailing newline" ∅;
       info formatter "This message can be overwritten" overwrite_extra;
       info formatter "Now the message has been replaced" ∅;
       info formatter "Progress: [" same_line_extra;
       info formatter "                                        ]" overwrite_same_line_extra ]
  ++ map (fun _ => info formatter "=" same_line_extra) (seq 0 40)
  ++ [ info formatter "DONE" ∅ ].

Definition main (formatter : string -> string) : Py unit :=
  emit_all (main_records formatter).

(** ** What the error path may change *)

Definition is_own (channel : ErrorChannel) : bool :=
  match channel with
  | OwnStream => true
  | _ => false
  end.

(** [reports_only self self']: from [self] to [self'] nothing happened but
    writes on the error channel.  The attributes are the same, the stream of
    the handler has only grown, and it is the same unless it is the error
    channel. *)
Definition reports_only (self self' : ProgressHandler) : Prop :=
  on_same_line self' = on_same_line self /\
  overwriting self' = overwriting self /\
  terminator self' = terminator self /\
  reported self' = reported self /\
  error_report self' = error_report self /\
  is_own (stderr self') = is_own (stderr self) /\
  (is_own (stderr self) = false -> stream self' = stream self) /\
  (exists report, written (stream self') = written (stream self) ++ report).

Definition steady {A} (m : Py A) : Prop :=
  forall self, reports_only self (snd (m self)).




(** * Reasoning about statements *)

Section WP.
Context {A : Type}.
Variables (Q : A -> ProgressHandler -> Prop) (E : PyExc -> ProgressHandler -> Prop).
Variable self : ProgressHandler.

Lemma wp_bind {B} (m : Py B) (k : B -> Py A) :
  wp m (fun b => wp (k b) Q E) E self -> wp (bind m k) Q E self.
Proof. unfold wp, bind. destruct (m self) as [[b|e] s]; auto. Qed.

Lemma wp_ret (a : A) : Q a self -> wp (ret a) Q E self.
Proof. auto. Qed.

Lemma wp_attr (field : ProgressHandler -> A) :
  Q (field self) self -> wp (attr field) Q E self.
Proof. auto. Qed.

Lemma wp_call_ok (a : A) : Q a self -> wp (call (Ok a)) Q E self.
Proof. auto. Qed.

Lemma wp_call_raise (e : PyExc) : E e self -> wp (call (Raise e)) Q E self.
Proof. auto. Qed.

Lemma wp_elim (m : Py A) a self' :
  wp m Q E self -> m self = (Ok a, self') -> Q a self'.
Proof. unfold wp. intros H Hm. rewrite Hm in H. exact H. Qed.

Lemma wp_elim_raise (m : Py A) e self' :
  wp m Q E self -> m self = (Raise e, self') -> E e self'.
Proof. unfold wp. intros H Hm. rewrite Hm in H. exact H. Qed.
End WP.

Section WPUnit.
Variables (Q : unit -> ProgressHandler -> Prop) (E : PyExc -> ProgressHandler -> Prop).
Variable self : ProgressHandler.

Lemma wp_stream_op data :
  (forall e, E e (refused self)) -> Q tt (pushed data self) ->
  wp (stream_op data) Q E self.
Proof.
  intros HE HQ. unfold wp, stream_op.
  destruct (head (faults (stream self))) as [[e|]|]; auto.
Qed.

Lemma wp_set_overwriting b :
  Q tt (snd (set_overwriting b self)) -> wp (set_overwriting b) Q E self.
Proof. auto. Qed.

Lemma wp_set_on_same_line b :
  Q tt (snd (set_on_same_line b self)) -> wp (set_on_same_line b) Q E self.
Proof. auto. Qed.
End WPUnit.

(** One step of symbolic execution of a statement. *)
Ltac wp_step :=
  lazymatch goal with
  | |- wp (bind _ _) _ _ _ => apply wp_bind
  | |- wp (ret _) _ _ _ => apply wp_ret
  | |- wp (attr _) _ _ _ => apply wp_attr
  | |- wp (call (Ok _)) _ _ _ => apply wp_call_ok
  | |- wp (call (Raise _)) _ _ _ => apply wp_call_raise
  | |- wp (write _) _ _ _ => apply wp_stream_op; [intros ?|]
  | |- wp flush _ _ _ => apply wp_stream_op; [intros ?|]
  | |- wp (set_overwriting _) _ _ _ => apply wp_set_overwriting
  | |- wp (set_on_same_line _) _ _ _ => apply wp_set_on_same_line
  end; cbn.

Ltac wp_run := repeat wp_step.

(** * What [handleError] does *)

Lemma reports_only_refl self : reports_only self self.
Proof. unfold reports_only. repeat split; auto. exists []. now rewrite app_nil_r. Qed.

Lemma reports_only_trans s1 s2 s3 :
  reports_only s1 s2 -> reports_only s2 s3 -> reports_only s1 s3.
Proof.
  intros (Ha & Hb & Hc & Hd & He & Hf & Hg & k1 & Hh)
         (Ha' & Hb' & Hc' & Hd' & He' & Hf' & Hg' & k2 & Hh').
  unfold reports_only. repeat split; try congruence.
  - intros Hown. rewrite Hg', Hg; congruence.
  - exists (k1 ++ k2). rewrite Hh', Hh. now rewrite app_assoc.
Qed.

Lemma steady_ret {A} (a : A) : steady (ret a).
Proof. intros self. apply reports_only_refl. Qed.

Lemma steady_raise {A} (e : PyExc) : steady (@raise A e).
Proof. intros self. apply reports_only_refl. Qed.

Lemma steady_call {A} (r : result A) : steady (call r).
Proof. intros self. apply reports_only_refl. Qed.

Lemma steady_attr {A} (field : ProgressHandler -> A) : steady (attr field).
Proof. intros self. apply reports_only_refl. Qed.

Lemma steady_bind {A B} (m : Py A) (k : A -> Py B) :
  steady m -> (forall a, steady (k a)) -> steady (bind m k).
Proof.
  intros Hm Hk self. specialize (Hm self). unfold bind.
  destruct (m self) as [[a|e] s1]; cbn in *; [|exact Hm].
  eapply reports_only_trans; [exact Hm | apply Hk].
Qed.

Lemma steady_try_except {A} (body : Py A) (handler : PyExc -> Py A) :
  steady body -> (forall e, steady (handler e)) -> steady (try_except body handler).
Proof.
  intros Hb Hh self. specialize (Hb self). unfold try_except.
  destruct (body self) as [[a|e] s1]; cbn in *; [exact Hb|].
  eapply reports_only_trans; [exact Hb | apply Hh].
Qed.

Lemma steady_stderr_write data : steady (stderr_write data).
Proof.
  intros self. unfold stderr_write, write, stream_op, stream_put.
  destruct self as [osl ow term [w fs] rep [| |[w' fs']] rpt]; cbn.
  - apply reports_only_refl.
  - destruct (head fs) as [[e|]|]; cbn; unfold reports_only; cbn;
      repeat split; try discriminate; eauto.
    exists []. now rewrite app_nil_r.
  - destruct (head fs') as [[e|]|]; cbn; unfold reports_only; cbn;
      repeat split; auto; exists []; now rewrite app_nil_r.
Qed.

Lemma steady_stderr_write_all chunks : steady (stderr_write_all chunks).
Proof.
  induction chunks as [|chunk rest IH]; cbn [stderr_write_all].
  - apply steady_ret.
  - apply steady_bind; [apply steady_stderr_write | intros _; exact IH].
Qed.

Create HintDb steady.
#[local] Hint Resolve steady_ret steady_raise steady_call steady_attr
  steady_stderr_write steady_stderr_write_all : steady.

Lemma steady_report_error record exc : steady (report_error record exc).
Proof.
  unfold report_error. apply steady_bind; [auto with steady|]. intros channel.
  assert (Hbody : steady (
    let! report := attr (fun self => error_report self exc (without_extra record)) in
    try_except
      (stderr_write logging_error_header >>
       stderr_write_all (traceback_chunks report) >>
       stderr_write call_stack_header >>
       stderr_write_all (stack_chunks report) >>
       try_except
         (let! line := call (message_line report) in stderr_write line)
         (fun e =>
            if is_RecursionError e then raise e
            else if is_Exception e then stderr_write unable_to_print
            else raise e))
      (fun e => if is_OSError e then ret tt else raise e))).
  { apply steady_bind; [auto with steady|]. intros report.
    apply steady_try_except.
    - repeat (apply steady_bind; [auto with steady | intros _]).
      apply steady_try_except.
      + apply steady_bind; auto with steady.
      + intros e. destruct (is_RecursionError e), (is_Exception e); auto with steady.
    - intros e. destruct (is_OSError e); auto with steady. }
  destruct channel; [apply steady_ret | exact Hbody | exact Hbody].
Qed.

(** Everything [handleError] does besides recording the call. *)
Lemma handleError_effect record exc self :
  reported (snd (handleError record exc self)) = reported self ++ [record] /\
  on_same_line (snd (handleError record exc self)) = on_same_line self /\
  overwriting (snd (handleError record exc self)) = overwriting self /\
  terminator (snd (handleError record exc self)) = terminator self /\
  (stderr self <> OwnStream -> stream (snd (handleError record exc self)) = stream self) /\
  (exists report,
     written (stream (snd (handleError record exc self))) =
     written (stream self) ++ report).
Proof.
  pose proof (steady_report_error record exc self) as Hs.
  unfold handleError. destruct (report_error record exc self) as [r s]. cbn in *.
  destruct Hs as (Ha & Hb & Hc & Hd & _ & _ & Hg & Hh).
  repeat split; auto; try congruence.
  intros Hown. apply Hg. destruct (stderr self); auto. now destruct Hown.
Qed.

Lemma handleError_silent record exc self :
  stderr self = Silent ->
  handleError record exc self = (Ok tt, snd (note_reported record self)).
Proof. unfold handleError, report_error, bind, attr. now intros ->. Qed.










(** The report does not look at the attributes of the record. *)
Lemma report_error_ext r1 r2 exc :
  without_extra r1 = without_extra r2 ->
  report_error r1 exc = report_error r2 exc.
Proof. unfold report_error. now intros ->. Qed.

(** * What [emit] does *)

Lemma emit_try_wp record self :
  wp (emit_try record) (fun _ self' => effect record self self') (fun _ _ => True) self.
Proof.
  unfold emit_try, effect, wrote, opening, message_text, rewind, closing.
  destruct (format record) as [fmt|e1]; [|wp_run; exact I].
  destruct (getMessage record) as [raw|e2];
    destruct (hasattr record "same_line"), (hasattr record "overwrite");
    destruct self as [[] [] term [w fs] rep]; cbn;
    wp_run; try exact I.
  all: eexists _, _; cbn; repeat split; try reflexivity; eauto; try discriminate; cbn.
  all: rewrite <- ?app_assoc; try reflexivity.
Qed.

Lemma completes_effect record self self' :
  completes record self self' -> effect record self self'.
Proof. intros H. exact (wp_elim _ _ _ _ _ _ (emit_try_wp record self) H). Qed.

Lemma emit_try_frame record self :
  wp (emit_try record) (fun _ self' => frame self self') (fun _ self' => frame self self') self.
Proof.
  unfold emit_try, frame, flags_ok.
  destruct (format record) as [fmt|e1]; [|wp_run; auto].
  destruct (getMessage record) as [raw|e2];
    destruct (hasattr record "same_line"), (hasattr record "overwrite");
    destruct self as [[] [] term [w fs] rep]; cbn;
    wp_run; auto.
  all: repeat split; try reflexivity; intros H; try (specialize (H eq_refl)); congruence.
Qed.

Lemma emit_try_frame_at record self res self' :
  emit_try record self = (res, self') -> frame self self'.
Proof.
  intros H. pose proof (emit_try_frame record self) as W.
  unfold wp in W. rewrite H in W. destruct res; exact W.
Qed.

Lemma emit_try_keeps_channel record self :
  stderr (snd (emit_try record self)) = stderr self /\
  error_report (snd (emit_try record self)) = error_report self.
Proof.
  assert (W : wp (emit_try record)
                (fun _ self' => stderr self' = stderr self /\
                                error_report self' = error_report self)
                (fun _ self' => stderr self' = stderr self /\
                                error_report self' = error_report self) self).
  { unfold emit_try.
    destruct (format record) as [fmt|e1]; [|wp_run; auto].
    destruct (getMessage record) as [raw|e2];
      destruct (hasattr record "same_line"), (hasattr record "overwrite");
      destruct self as [[] [] term [w fs] rep ch rpt]; cbn;
      wp_run; auto. }
  unfold wp in W. destruct (emit_try record self) as [[[]|e] s]; exact W.
Qed.

Lemma completes_emit record self self' :
  completes record self self' -> emit record self = (Ok tt, self').
Proof. unfold completes, emit, try_except. intros ->. reflexivity. Qed.

(** A call completes exactly when [emit] returns without having reported
    the record to [handleError]. *)
Lemma completes_iff record self self' :
  completes record self self' <->
  emit record self = (Ok tt, self') /\ reported self' = reported self.
Proof.
  split.
  - intros H. split; [now apply completes_emit|].
    now destruct (emit_try_frame_at _ _ _ _ H).
  - unfold completes, emit, try_except. intros [H Hrep].
    destruct (emit_try record self) as [[[]|e] s] eqn:Htry.
    + congruence.
    + destruct (emit_try_frame_at _ _ _ _ Htry) as (Hs & _).
      destruct (is_interrupt e); [discriminate|].
      destruct (handleError_effect record e s) as (Hr & _).
      rewrite H in Hr. cbn in Hr. rewrite Hs, Hrep in Hr.
      apply (f_equal (@List.length _)) in Hr. rewrite length_app in Hr. cbn in Hr. lia.
Qed.

Lemma emit_flags_ok record self : flags_ok self -> flags_ok (snd (emit record self)).
Proof.
  intros Hok. unfold emit, try_except.
  destruct (emit_try record self) as [[[]|e] s] eqn:Htry;
    destruct (emit_try_frame_at _ _ _ _ Htry) as (_ & _ & H); specialize (H Hok).
  - exact H.
  - destruct (is_interrupt e); [exact H|].
    destruct (handleError_effect record e s) as (_ & Hosl & How & _).
    unfold flags_ok in *. rewrite Hosl, How. exact H.
Qed.

Lemma reachable_flags_ok self : reachable self -> flags_ok self.
Proof.
  induction 1 as [term script channel report|record self _ IH].
  - discriminate.
  - now apply emit_flags_ok.
Qed.

Lemma emit_try_returns record self fmt raw :
  format record = Ok fmt -> getMessage record = Ok raw ->
  accepts 4 (stream self) = true ->
  exists self', completes record self self'.
Proof.
  unfold completes, emit_try, accepts. intros -> ->.
  destruct self as [osl ow term [w fs] rep]. cbn [stream faults].
  destruct fs as [|[?|] [|[?|] [|[?|] [|[?|] fs]]]]; cbn; try discriminate; intros _;
    destruct osl, ow, (hasattr record "same_line"), (hasattr record "overwrite");
    cbn; eauto.
Qed.

(** ** Facts about the rewind string *)

Lemma backspaces_S n :
  backspaces (S n) = String BS_char (backspaces n).
Proof. reflexivity. Qed.

Lemma backspaces_length n : len (backspaces n) = n.
Proof.
  induction n as [|n IH]; [reflexivity|].
  rewrite backspaces_S. unfold len in *. cbn. now rewrite IH.
Qed.

Lemma backspaces_count n : count_char BS_char (backspaces n) = n.
Proof.
  induction n as [|n IH]; [reflexivity|].
  rewrite backspaces_S. cbn. now rewrite IH.
Qed.

Lemma backspaces_all n : all_chars BS_char (backspaces n) = true.
Proof.
  induction n as [|n IH]; [reflexivity|].
  rewrite backspaces_S. cbn. exact IH.
Qed.

(** The rewind string, character by character: [n] times the character of
    code 8. *)
Lemma backspaces_spelled n :
  backspaces n = string_of_list_ascii (List.repeat "008"%char n).
Proof.
  induction n as [|n IH]; [reflexivity|].
  rewrite backspaces_S, IH. reflexivity.
Qed.

Lemma count_chunks_app c l1 l2 :
  count_chunks c (l1 ++ l2) = count_chunks c l1 + count_chunks c l2.
Proof.
  unfold count_chunks. induction l1 as [|s l1 IH]; [reflexivity|].
  cbn [app foldr]. rewrite IH. lia.
Qed.

Lemma append_empty_r (s : string) : s +:+ EmptyString = s.
Proof. induction s as [|c s IH]; [reflexivity|]. change ((String c s) +:+ EmptyString) with (String c (s +:+ EmptyString)). now rewrite IH. Qed.

(** * Properties of [emit] *)

(** C1.  In a call that completes, a line terminator is written ahead of
    the message text exactly when [on_same_line] holds at entry and neither
    the record's [same_line] flag nor the handler's [overwriting] flag is
    set; otherwise the message text is the first chunk written.  In
    particular the call that follows a completed overwrite call, and asks
    for neither flag, writes its raw body and then one terminator, with no
    terminator in front. *)
Theorem leading_terminator_iff record self self' :
  completes record self self' ->
  exists text,
    message_text record self = Ok text /\
    (on_same_line self = true /\ hasattr record "same_line" = false /\
     overwriting self = false ->
       wrote self self' (terminator self :: text :: rewind record ++ closing record self)) /\
    (~ (on_same_line self = true /\ hasattr record "same_line" = false /\
        overwriting self = false) ->
       wrote self self' (text :: rewind record ++ closing record self)) /\
    (forall previous self0,
       hasattr previous "overwrite" = true -> completes previous self0 self ->
       hasattr record "same_line" = false -> hasattr record "overwrite" = false ->
       getMessage record = Ok text /\ wrote self self' [text; terminator self]).
Proof.
  intros H. destruct (completes_effect _ _ _ H)
    as (fmt & text & Hfmt & Htext & _ & _ & _ & _ & _ & Hw).
  exists text. split; [exact Htext|]. unfold opening in Hw.
  split; [|split].
  - intros (Hosl & Hsl & How). rewrite Hosl, Hsl, How in Hw. exact Hw.
  - intros Hn. destruct (on_same_line self), (hasattr record "same_line"),
      (overwriting self); cbn in Hw; try exact Hw.
    exfalso. apply Hn. auto.
  - intros previous self0 Hprev Hdone Hsl Hov.
    destruct (completes_effect _ _ _ Hdone) as (_ & _ & _ & _ & _ & Hosl & How & _).
    rewrite Hprev in How. rewrite Hprev, orb_true_r in Hosl.
    unfold message_text in Htext. rewrite Hosl in Htext.
    rewrite How, orb_true_r, andb_false_r in Hw.
    unfold rewind, closing in Hw. rewrite Hsl, Hov in Hw.
    split; [exact Htext | exact Hw].
Qed.

Lemma leading_terminator_iff_witness :
  completes plain_hello after_same_a (snd (emit_try plain_hello after_same_a)) /\
  wrote after_same_a (snd (emit_try plain_hello after_same_a)) [newline; "Hello"; newline].
Proof.
  split; [reflexivity|].
  destruct (leading_terminator_iff plain_hello after_same_a
              (snd (emit_try plain_hello after_same_a)) eq_refl)
    as (text & Htext & Hw & _).
  injection Htext as <-. apply Hw. repeat split.
Defined.

(** C2.  A completed call on a record carrying [overwrite] ends by writing
    the rewind chunk, which is the character 0x08 repeated as many times as
    the raw body has characters.  Counting the characters 0x08 over
    everything the call wrote gives the length of the raw body on top of
    those that the terminator and the message text themselves contain; the
    formatted string plays no part. *)
Theorem rewind_length_is_raw_length record self self' :
  hasattr record "overwrite" = true ->
  completes record self self' ->
  exists raw text,
    getMessage record = Ok raw /\
    message_text record self = Ok text /\
    wrote self self'
      (opening record self ++
       [text; string_of_list_ascii (List.repeat "008"%char (String.length raw))]) /\
    count_char "008"%char
      (string_of_list_ascii (List.repeat "008"%char (String.length raw))) =
      String.length raw /\
    (forall chunks, wrote self self' chunks ->
       count_chunks "008"%char chunks =
       count_chunks "008"%char (opening record self) + count_char "008"%char text
       + String.length raw).
Proof.
  intros Hov H. destruct (completes_effect _ _ _ H)
    as (fmt & text & Hfmt & Htext & Hraw & _ & _ & _ & _ & Hw).
  destruct (Hraw Hov) as (raw & Hget). exists raw, text.
  unfold rewind, closing in Hw. rewrite Hov, Hget, orb_true_r, app_nil_r in Hw.
  rewrite backspaces_spelled in Hw. unfold len in Hw.
  assert (Hcount : count_char "008"%char
            (string_of_list_ascii (List.repeat "008"%char (String.length raw))) =
            String.length raw).
  { rewrite <- backspaces_spelled. apply backspaces_count. }
  repeat split; auto.
  intros chunks Hc. unfold wrote in *. rewrite Hw in Hc.
  apply app_inv_head in Hc as <-.
  rewrite count_chunks_app.
  set (bs := string_of_list_ascii (List.repeat "008"%char (String.length raw))) in *.
  unfold count_chunks at 2. cbn [foldr app]. rewrite Hcount. lia.
Qed.

Lemma rewind_length_is_raw_length_witness :
  completes loading ProgressHandler_default after_loading /\
  wrote ProgressHandler_default after_loading
    ["Loading"; string_of_list_ascii (List.repeat "008"%char 7)].
Proof.
  split; [reflexivity|].
  destruct (rewind_length_is_raw_length loading ProgressHandler_default after_loading
              eq_refl eq_refl)
    as (raw & text & Hraw & Htext & Hw & _).
  injection Hraw as <-. injection Htext as <-. exact Hw.
Defined.

(** C3.  After a call that completes, [on_same_line] equals
    [same_line or overwrite] of that call.  When the record carries neither
    flag the call ends by writing a terminator; when it carries one of them
    the last chunk is the message text or the rewind, with no terminator
    after it. *)
Theorem closing_terminator_and_state record self self' :
  completes record self self' ->
  on_same_line self' = hasattr record "same_line" || hasattr record "overwrite" /\
  exists text,
    message_text record self = Ok text /\
    (hasattr record "same_line" = false /\ hasattr record "overwrite" = false ->
       on_same_line self' = false /\
       wrote self self' (opening record self ++ [text; terminator self])) /\
    (~ (hasattr record "same_line" = false /\ hasattr record "overwrite" = false) ->
       on_same_line self' = true /\
       wrote self self' (opening record self ++ text :: rewind record)).
Proof.
  intros H. destruct (completes_effect _ _ _ H)
    as (fmt & text & Hfmt & Htext & _ & Hosl & _ & _ & _ & Hw).
  split; [exact Hosl|]. exists text. split; [exact Htext|].
  unfold closing in Hw. split.
  - intros (Hsl & Hov). unfold rewind in Hw. rewrite Hsl, Hov in *.
    split; [exact Hosl | exact Hw].
  - intros Hn.
    destruct (hasattr record "same_line"), (hasattr record "overwrite");
      try (exfalso; apply Hn; split; reflexivity);
      cbn in Hosl, Hw; rewrite app_nil_r in Hw; split; assumption.
Qed.

Lemma closing_terminator_and_state_witness :
  completes plain_hello after_same_a (snd (emit_try plain_hello after_same_a)) /\
  on_same_line (snd (emit_try plain_hello after_same_a)) = false.
Proof.
  split; [reflexivity|].
  destruct (closing_terminator_and_state plain_hello after_same_a
              (snd (emit_try plain_hello after_same_a)) eq_refl)
    as (_ & text & _ & Hplain & _).
  apply Hplain. split; reflexivity.
Defined.

(** C4.  Scenario C: from a fresh handler, an overwrite record "Loading"
    followed by a plain record with body "Done" puts exactly "Loading",
    seven characters 0x08, "Done" and one terminator on the stream, in four
    writes; nothing is written between the backspaces and "Done".  The
    seven backspaces are spelled out as the characters of code 8. *)
Theorem scenario_C term channel report :
  fst (emit_all [loading; done] (with_errors channel report (new_handler term []))) = Ok tt /\
  written (stream (snd (emit_all [loading; done]
                          (with_errors channel report (new_handler term []))))) =
    ["Loading"; string_of_list_ascii (List.repeat "008"%char 7); "Done"; term] /\
  output (stream (snd (emit_all [loading; done]
                         (with_errors channel report (new_handler term []))))) =
    "Loading" +:+ string_of_list_ascii (List.repeat "008"%char 7) +:+ "Done" +:+ term /\
  flags (snd (emit_all [loading; done]
                (with_errors channel report (new_handler term [])))) = (false, false).
Proof.
  assert (Hw : written (stream (snd (emit_all [loading; done]
                 (with_errors channel report (new_handler term []))))) =
    ["Loading"; string_of_list_ascii (List.repeat "008"%char 7); "Done"; term])
    by reflexivity.
  split; [reflexivity|]. split; [exact Hw|]. split; [|reflexivity].
  unfold output. rewrite Hw. cbn [foldr].
  now rewrite append_empty_r.
Qed.

(** C5.  The message text of a completed call is the raw body when
    [on_same_line] holds at entry and the formatted string otherwise.  Hence
    the second of two consecutive same-line calls writes its raw body, with
    nothing in front of it. *)
Theorem message_text_selection record self self' :
  completes record self self' ->
  (on_same_line self = true ->
     exists raw, getMessage record = Ok raw /\
       wrote self self' (opening record self ++ raw :: rewind record ++ closing record self)) /\
  (on_same_line self = false ->
     exists fmt, format record = Ok fmt /\
       wrote self self' (fmt :: rewind record ++ closing record self)) /\
  (forall next self'',
     hasattr record "same_line" = true -> hasattr next "same_line" = true ->
     completes next self' self'' ->
     exists raw, getMessage next = Ok raw /\ wrote self' self'' (raw :: rewind next)).
Proof.
  intros H. destruct (completes_effect _ _ _ H)
    as (fmt & text & Hfmt & Htext & _ & Hosl & _ & _ & _ & Hw).
  unfold message_text in Htext. split; [|split].
  - intros Hon. rewrite Hon in Htext. eauto.
  - intros Hoff. unfold opening in Hw. rewrite Hoff in Htext, Hw. eauto.
  - intros next self'' Hsl Hnext Hdone.
    destruct (completes_effect _ _ _ Hdone)
      as (fmt2 & text2 & _ & Htext2 & _ & _ & _ & _ & _ & Hw2).
    rewrite Hsl in Hosl. cbn in Hosl.
    unfold message_text in Htext2. unfold opening, closing in Hw2.
    rewrite Hosl in Htext2. rewrite Hnext, andb_false_r in Hw2.
    cbn in Hw2. rewrite app_nil_r in Hw2. eauto.
Qed.

Lemma message_text_selection_witness :
  completes same_b after_same_a (snd (emit_try same_b after_same_a)) /\
  wrote after_same_a (snd (emit_try same_b after_same_a)) ["b"].
Proof.
  split; [reflexivity|].
  destruct (message_text_selection same_b after_same_a
              (snd (emit_try same_b after_same_a)) eq_refl) as (Hraw & _).
  destruct (Hraw eq_refl) as (raw & Hget & Hw).
  injection Hget as <-. exact Hw.
Defined.

(** C8.  When two consecutive calls both carry [same_line] and complete,
    what lies between the first message text and the second is only the
    rewind of the first call, which consists of backspaces and is absent
    unless the first record also carries [overwrite]: no terminator is
    written between the two texts. *)
Theorem no_terminator_between_same_line record1 record2 self self1 self2 :
  hasattr record1 "same_line" = true ->
  hasattr record2 "same_line" = true ->
  completes record1 self self1 ->
  completes record2 self1 self2 ->
  exists text1 text2,
    message_text record1 self = Ok text1 /\
    getMessage record2 = Ok text2 /\
    wrote self self2
      (opening record1 self ++ [text1] ++ rewind record1 ++ [text2] ++ rewind record2) /\
    Forall (fun chunk => all_chars BS_char chunk = true) (rewind record1) /\
    (hasattr record1 "overwrite" = false -> rewind record1 = []).
Proof.
  intros Hsl1 Hsl2 H1 H2.
  destruct (completes_effect _ _ _ H1)
    as (fmt1 & text1 & _ & Htext1 & _ & Hosl1 & _ & _ & _ & Hw1).
  destruct (completes_effect _ _ _ H2)
    as (fmt2 & text2 & _ & Htext2 & _ & _ & _ & _ & _ & Hw2).
  rewrite Hsl1 in Hosl1. cbn in Hosl1.
  unfold message_text in Htext2. rewrite Hosl1 in Htext2.
  unfold opening in Hw2. unfold closing in Hw1, Hw2.
  rewrite Hsl2, andb_false_r in Hw2. rewrite Hsl1 in Hw1.
  cbn in Hw1, Hw2. rewrite app_nil_r in Hw1, Hw2.
  exists text1, text2. split; [exact Htext1|]. split; [exact Htext2|].
  split; [|split].
  - unfold wrote in *. rewrite Hw2, Hw1. rewrite <- !app_assoc. reflexivity.
  - unfold rewind. destruct (hasattr record1 "overwrite"); [|constructor].
    destruct (getMessage record1); repeat constructor. apply backspaces_all.
  - intros Hov. unfold rewind. now rewrite Hov.
Qed.

Lemma no_terminator_between_same_line_witness :
  completes same_a ProgressHandler_default after_same_a /\
  completes same_b after_same_a (snd (emit_try same_b after_same_a)) /\
  wrote ProgressHandler_default (snd (emit_try same_b after_same_a)) ["X: a"; "b"].
Proof.
  split; [reflexivity|]. split; [reflexivity|].
  destruct (no_terminator_between_same_line same_a same_b ProgressHandler_default
              after_same_a (snd (emit_try same_b after_same_a))
              eq_refl eq_refl eq_refl eq_refl)
    as (text1 & text2 & Ht1 & Ht2 & Hw & _).
  injection Ht1 as <-. injection Ht2 as <-. exact Hw.
Defined.

(** ** Exceptions *)




(** C10.  When formatting the record raises an exception other than an
    interrupt, the handler reaches [handleError] exactly as it was: [emit]
    has written nothing and has assigned no flag.  After [emit] both flags
    are as before, and so is the stream unless it is the error channel, in
    which case it has received the report of [handleError] after what it
    held. *)
Theorem format_failure_is_atomic record self e :
  format record = Raise e ->
  is_interrupt e = false ->
  emit_try record self = (Raise e, self) /\
  emit record self = handleError record e self /\
  on_same_line (snd (emit record self)) = on_same_line self /\
  overwriting (snd (emit record self)) = overwriting self /\
  reported (snd (emit record self)) = reported self ++ [record] /\
  (stderr self <> OwnStream -> stream (snd (emit record self)) = stream self) /\
  (exists report, wrote self (snd (emit record self)) report).
Proof.
  intros Hfmt Hi.
  assert (Htry : emit_try record self = (Raise e, self)).
  { unfold emit_try, bind, call. now rewrite Hfmt. }
  assert (Hemit : emit record self = handleError record e self).
  { unfold emit, try_except. now rewrite Htry, Hi. }
  rewrite Hemit.
  destruct (handleError_effect record e self) as (Hr & Hosl & How & _ & Hs & Hw).
  repeat split; auto.
Qed.

Lemma format_failure_is_atomic_witness :
  format bad_format = Raise (OtherException "TypeError") /\
  flags (snd (emit bad_format after_loading)) = flags after_loading /\
  stream (snd (emit bad_format (with_errors Silent (fun _ _ => bare_report) after_loading)))
    = stream after_loading.
Proof.
  split; [reflexivity|].
  destruct (format_failure_is_atomic bad_format after_loading
              (OtherException "TypeError") eq_refl eq_refl)
    as (_ & _ & Hosl & How & _).
  split; [unfold flags; now rewrite Hosl, How|].
  destruct (format_failure_is_atomic bad_format
              (with_errors Silent (fun _ _ => bare_report) after_loading)
              (OtherException "TypeError") eq_refl eq_refl)
    as (_ & _ & _ & _ & _ & Hs & _).
  apply Hs. discriminate.
Defined.

(** C10, as the specification has it, fails for a handler made without
    arguments: its stream is [sys.stderr], where [handleError] prints its
    report, so the stream does receive something when formatting fails. *)
Lemma format_failure_reaches_own_stream :
  format bad_format = Raise (OtherException "TypeError") /\
  is_interrupt (OtherException "TypeError") = false /\
  written (stream ProgressHandler_default) = [] /\
  written (stream (snd (emit bad_format ProgressHandler_default))) =
    [logging_error_header; call_stack_header; EmptyString].
Proof. repeat split. Qed.

(** ** Attribute presence *)

Lemma hasattr_with_attr record name v w other :
  hasattr (with_attr name v record) other = hasattr (with_attr name w record) other.
Proof.
  unfold hasattr, with_attr. cbn [attrs]. apply bool_decide_ext.
  now rewrite !lookup_insert_is_Some.
Qed.

Lemma hasattr_with_attr_same record name v :
  hasattr (with_attr name v record) name = true.
Proof.
  unfold hasattr, with_attr. cbn [attrs]. apply bool_decide_eq_true.
  rewrite lookup_insert_is_Some. now left.
Qed.

(** [emit] looks at a record only through [format], [getMessage] and the
    presence of the two attributes. *)
Lemma emit_try_ext r1 r2 :
  format r1 = format r2 ->
  getMessage r1 = getMessage r2 ->
  hasattr r1 "same_line" = hasattr r2 "same_line" ->
  hasattr r1 "overwrite" = hasattr r2 "overwrite" ->
  emit_try r1 = emit_try r2.
Proof. unfold emit_try. intros -> -> -> ->. reflexivity. Qed.

(** C9.  The flags are read off the record by attribute presence: a record
    on which an attribute is set, to whatever value ([False] included),
    has that attribute, and [emit] treats it exactly as it treats the record
    with the attribute set to [True]: same outcome, same flags, same stream;
    only the record handed to [handleError], if any, is the one given.  For
    instance a plain record with [same_line=False] is written without
    closing terminator. *)
Theorem attribute_presence_decides record name v self :
  hasattr (with_attr name v record) name = true /\
  hasattr (with_attr name (PyBool false) record) name = true /\
  emit_try (with_attr name v record) self =
    emit_try (with_attr name (PyBool true) record) self /\
  fst (emit (with_attr name v record) self) =
    fst (emit (with_attr name (PyBool true) record) self) /\
  flags (snd (emit (with_attr name v record) self)) =
    flags (snd (emit (with_attr name (PyBool true) record) self)) /\
  stream (snd (emit (with_attr name v record) self)) =
    stream (snd (emit (with_attr name (PyBool true) record) self)) /\
  written (stream (snd (emit hello_same_line_False ProgressHandler_default))) = ["X: Hello"] /\
  written (stream (snd (emit plain_hello ProgressHandler_default))) = ["X: Hello"; newline].
Proof.
  assert (Htry : emit_try (with_attr name v record) =
                 emit_try (with_attr name (PyBool true) record)).
  { apply emit_try_ext; try reflexivity; apply hasattr_with_attr. }
  split; [apply hasattr_with_attr_same|].
  split; [apply hasattr_with_attr_same|].
  split; [now rewrite Htry|].
  unfold emit, try_except. rewrite Htry.
  destruct (emit_try (with_attr name (PyBool true) record) self) as [[[]|e] s];
    [|destruct (is_interrupt e)]; try (repeat split; fail).
  unfold handleError.
  rewrite (report_error_ext (with_attr name v record)
             (with_attr name (PyBool true) record) e eq_refl).
  destruct (report_error (with_attr name (PyBool true) record) e s) as [r s'].
  repeat split.
Qed.

(** ** The state machine *)

(** C7.  In every state reached from a fresh handler by [emit] calls,
    however those calls end, [overwriting] implies [on_same_line]: the
    combination [(on_same_line, overwriting) = (false, true)] never
    occurs.  A call that completes leaves [overwriting] equal to the
    record's [overwrite] flag, so it is false after a record without the
    flag, and true only after a record with it, together with
    [on_same_line].  The other three combinations of the two flags all
    occur. *)
Theorem overwriting_invariant :
  (forall self, reachable self ->
     flags self <> (false, true) /\
     (overwriting self = true -> on_same_line self = true) /\
     (forall record self', completes record self self' ->
        overwriting self' = hasattr record "overwrite" /\
        (hasattr record "overwrite" = false -> overwriting self' = false) /\
        (overwriting self' = true ->
           hasattr record "overwrite" = true /\ on_same_line self' = true))) /\
  (exists self, reachable self /\ flags self = (false, false)) /\
  (exists self, reachable self /\ flags self = (true, false)) /\
  (exists self, reachable self /\ flags self = (true, true)).
Proof.
  split; [|split; [|split]].
  - intros self Hreach. pose proof (reachable_flags_ok _ Hreach) as Hok.
    split; [|split].
    + unfold flags. intros [= Hosl How]. specialize (Hok How). congruence.
    + exact Hok.
    + intros record self' Hdone.
      destruct (completes_effect _ _ _ Hdone) as (_ & _ & _ & _ & _ & Hosl & How & _).
      split; [exact How|]. split.
      * intros Hov. now rewrite How.
      * intros Hset. rewrite How in Hset. rewrite Hosl, Hset, orb_true_r. auto.
  - exists ProgressHandler_default. split; [apply reachable_new | reflexivity].
  - exists after_same_a. split; [|reflexivity].
    apply reachable_emit, reachable_new.
  - exists after_loading. split; [|reflexivity].
    apply reachable_emit, reachable_new.
Qed.

Lemma overwriting_invariant_witness :
  reachable after_loading /\
  completes done after_loading (snd (emit_try done after_loading)) /\
  flags after_loading <> (false, true) /\
  overwriting (snd (emit_try done after_loading)) = false.
Proof.
  assert (Hreach : reachable after_loading) by apply reachable_emit, reachable_new.
  destruct overwriting_invariant as (Hinv & _).
  destruct (Hinv after_loading Hreach) as (Hne & _ & Hcall).
  destruct (Hcall done (snd (emit_try done after_loading)) eq_refl) as (_ & Hoff & _).
  split; [exact Hreach|]. split; [reflexivity|]. split; [exact Hne|].
  apply Hoff. reflexivity.
Defined.

(** * Further properties of [emit] *)

(** ** Calls that do not complete *)

(** After its [try] block [emit] changes neither flags nor terminator, and
    adds to the stream at most the report of [handleError], and that only
    when the stream is the error channel. *)
Lemma emit_after_try record self :
  flags (snd (emit record self)) = flags (snd (emit_try record self)) /\
  terminator (snd (emit record self)) = terminator (snd (emit_try record self)) /\
  (stderr self <> OwnStream ->
     stream (snd (emit record self)) = stream (snd (emit_try record self))) /\
  (exists report,
     written (stream (snd (emit record self))) =
     written (stream (snd (emit_try record self))) ++ report).
Proof.
  pose proof (emit_try_keeps_channel record self) as (Hch & _).
  unfold emit, try_except.
  destruct (emit_try record self) as [[[]|e] s]; cbn in *.
  - repeat split. exists []. now rewrite app_nil_r.
  - destruct (is_interrupt e); cbn.
    + repeat split. exists []. now rewrite app_nil_r.
    + destruct (handleError_effect record e s) as (_ & Hosl & How & Hterm & Hs & Hw).
      unfold flags. rewrite Hosl, How, Hterm. repeat split; auto.
      intros Hown. apply Hs. congruence.
Qed.

Lemma wp_stream_op_head (Q : unit -> ProgressHandler -> Prop)
    (E : PyExc -> ProgressHandler -> Prop) self data :
  (forall e, head (faults (stream self)) = Some (Some e) -> E e (refused self)) ->
  Q tt (pushed data self) ->
  wp (stream_op data) Q E self.
Proof.
  intros HE HQ. unfold wp, stream_op.
  destruct (head (faults (stream self))) as [[e|]|]; auto.
Qed.

Lemma emit_try_text_first record self :
  let P := fun self' =>
    flags self' <> flags self ->
    exists text rest,
      message_text record self = Ok text /\
      wrote self self' (opening record self ++ text :: rest) in
  wp (emit_try record) (fun _ => P) (fun _ => P) self.
Proof.
  unfold emit_try, wrote, opening, message_text, flags.
  destruct (format record) as [fmt|e1]; [|wp_run; intros H; now destruct H].
  destruct (getMessage record) as [raw|e2];
    destruct (hasattr record "same_line"), (hasattr record "overwrite");
    destruct self as [[] [] term [w fs] rep]; cbn;
    wp_run.
  all: intros H; try (now destruct H).
  all: eexists _, _; split; [reflexivity|]; rewrite <- ?app_assoc; reflexivity.
Qed.

Lemma emit_try_truncates record self :
  let P := fun self' =>
    exists chunks,
      wrote self self' chunks /\ chunks `prefix_of` call_chunks record self in
  wp (emit_try record) (fun _ => P) (fun _ => P) self.
Proof.
  unfold emit_try, wrote, call_chunks, opening, message_text, rewind, closing.
  destruct (format record) as [fmt|e1].
  2: { wp_run. exists []. rewrite app_nil_r. split; [reflexivity | apply prefix_nil]. }
  destruct (getMessage record) as [raw|e2];
    destruct (hasattr record "same_line"), (hasattr record "overwrite");
    destruct self as [[] [] term [w fs] rep]; cbn;
    wp_run.
  all: try (exists []; rewrite app_nil_r; split; [reflexivity | apply prefix_nil]).
  all: rewrite <- ?app_assoc; eexists; (split; [reflexivity|]); cbn;
    eexists; reflexivity.
Qed.

(** X1.  [emit] touches the flags only after it has written the message
    text: whenever a call, however it ends, leaves a flag changed, the
    stream has received the opening chunk and the message text of that
    call.  A call that fails earlier leaves both flags as they were, a
    pending overwrite mode included. *)
Theorem flags_change_only_after_text record self :
  flags (snd (emit record self)) <> flags self ->
  exists text rest,
    message_text record self = Ok text /\
    wrote self (snd (emit record self)) (opening record self ++ text :: rest).
Proof.
  destruct (emit_after_try record self) as (Hf & _ & _ & report & Hs).
  rewrite Hf. intros Hne.
  assert (Htry : exists text rest,
             message_text record self = Ok text /\
             wrote self (snd (emit_try record self)) (opening record self ++ text :: rest)).
  { pose proof (emit_try_text_first record self) as W. unfold wp in W.
    destruct (emit_try record self) as [[[]|e] s]; exact (W Hne). }
  destruct Htry as (text & rest & Htext & Hw).
  exists text, (rest ++ report). split; [exact Htext|].
  unfold wrote in *. rewrite Hs, Hw, <- !app_assoc. reflexivity.
Qed.

Lemma flags_change_only_after_text_witness :
  flags (snd (emit same_a ProgressHandler_default)) <> flags ProgressHandler_default /\
  wrote ProgressHandler_default (snd (emit same_a ProgressHandler_default)) ["X: a"].
Proof.
  assert (Hne : flags (snd (emit same_a ProgressHandler_default))
                <> flags ProgressHandler_default) by discriminate.
  split; [exact Hne|].
  destruct (flags_change_only_after_text same_a ProgressHandler_default Hne)
    as (text & rest & Htext & Hw).
  injection Htext as <-. unfold wrote in *. cbn in *.
  injection Hw as <-. reflexivity.
Defined.

(** X2.  Whatever stops a call, the chunks its [try] block has put on the
    stream are an initial part of what the call writes when nothing stops
    it: opening terminator, message text, rewind, closing terminator, in
    this order and each at most once.  That is never more than three chunks,
    since a record that is rewound gets no closing terminator.  When [emit]
    is left, the stream holds these chunks and after them at most the report
    of [handleError], which goes elsewhere unless the stream is the error
    channel. *)
Theorem output_truncated_not_reordered record self :
  exists chunks,
    wrote self (snd (emit_try record self)) chunks /\
    chunks `prefix_of` call_chunks record self /\
    List.length (call_chunks record self) <= 3 /\
    (stderr self <> OwnStream -> wrote self (snd (emit record self)) chunks) /\
    (exists report, wrote self (snd (emit record self)) (chunks ++ report)).
Proof.
  destruct (emit_after_try record self) as (_ & _ & Hs & report & Hw').
  pose proof (emit_try_truncates record self) as W. unfold wp in W.
  assert (Hpre : exists chunks,
             wrote self (snd (emit_try record self)) chunks /\
             chunks `prefix_of` call_chunks record self).
  { destruct (emit_try record self) as [[[]|e] s]; exact W. }
  destruct Hpre as (chunks & Hw & Hp). exists chunks.
  split; [exact Hw|]. split; [exact Hp|]. split; [|split].
  - unfold call_chunks, opening, message_text, rewind, closing, text_of.
    destruct (on_same_line self), (overwriting self), (hasattr record "same_line"),
      (hasattr record "overwrite"), (getMessage record), (format record); cbn; lia.
  - intros Hown. unfold wrote in *. now rewrite (Hs Hown).
  - exists report. unfold wrote in *. now rewrite Hw', Hw, <- app_assoc.
Qed.

(** ** Interrupts are the only exceptions that leave [emit] *)

Lemma calm_head script e :
  calm script = true -> head script = Some (Some e) -> is_interrupt e = false.
Proof.
  destruct script as [|[e'|] script]; cbn; try discriminate.
  intros H [= ->]. apply andb_true_iff in H as (H & _).
  now apply negb_true_iff in H.
Qed.

Lemma calm_tail script : calm script = true -> calm (tail script) = true.
Proof.
  destruct script as [|f script]; cbn; [auto|].
  intros H. now apply andb_true_iff in H as (_ & H).
Qed.

Create HintDb calm.
#[local] Hint Resolve calm_head calm_tail : calm.

Ltac wp_step_head :=
  lazymatch goal with
  | |- wp (bind _ _) _ _ _ => apply wp_bind
  | |- wp (ret _) _ _ _ => apply wp_ret
  | |- wp (attr _) _ _ _ => apply wp_attr
  | |- wp (call (Ok _)) _ _ _ => apply wp_call_ok
  | |- wp (call (Raise _)) _ _ _ => apply wp_call_raise
  | |- wp (write _) _ _ _ => apply wp_stream_op_head; [intros ? ?|]
  | |- wp flush _ _ _ => apply wp_stream_op_head; [intros ? ?|]
  | |- wp (set_overwriting _) _ _ _ => apply wp_set_overwriting
  | |- wp (set_on_same_line _) _ _ _ => apply wp_set_on_same_line
  end; cbn.

Lemma emit_try_calm record self :
  benign (format record) = true ->
  benign (getMessage record) = true ->
  calm (faults (stream self)) = true ->
  wp (emit_try record)
     (fun _ self' => calm (faults (stream self')) = true)
     (fun e self' => is_interrupt e = false /\ calm (faults (stream self')) = true)
     self.
Proof.
  unfold emit_try.
  destruct (format record) as [fmt|e1]; cbn [benign]; intros Hfmt.
  2: { intros _ Hcalm. repeat wp_step_head. split; [now apply negb_true_iff|exact Hcalm]. }
  destruct (getMessage record) as [raw|e2]; cbn [benign]; intros Hmsg;
    try apply negb_true_iff in Hmsg;
    destruct (hasattr record "same_line"), (hasattr record "overwrite");
    destruct self as [[] [] term [w fs] rep]; cbn; intros Hcalm;
    repeat wp_step_head; try split; eauto 8 with calm.
Qed.

Lemma emit_calm record self :
  stderr self = Silent ->
  benign (format record) = true ->
  benign (getMessage record) = true ->
  calm (faults (stream self)) = true ->
  fst (emit record self) = Ok tt /\
  stderr (snd (emit record self)) = Silent /\
  calm (faults (stream (snd (emit record self)))) = true.
Proof.
  intros Hsilent Hfmt Hmsg Hcalm.
  pose proof (emit_try_calm record self Hfmt Hmsg Hcalm) as W.
  pose proof (emit_try_keeps_channel record self) as (Hch & _).
  unfold wp in W. unfold emit, try_except.
  destruct (emit_try record self) as [[[]|e] s]; cbn in Hch.
  - cbn. split; [reflexivity|]. split; [congruence | exact W].
  - destruct W as (-> & W).
    rewrite handleError_silent by congruence. cbn.
    split; [reflexivity|]. split; [congruence | exact W].
Qed.

(** X3.  With the reports of [handleError] switched off
    ([logging.raiseExceptions] false, or no [sys.stderr]), a run of [emit]
    calls never raises by itself: as long as neither the framework calls
    ([format], [getMessage]) nor the stream raise a [KeyboardInterrupt] or
    [SystemExit], every call of the run returns, whatever else goes wrong
    in it. *)
Theorem only_interrupts_leave_emit records self :
  stderr self = Silent ->
  Forall (fun r => benign (format r) = true /\ benign (getMessage r) = true) records ->
  calm (faults (stream self)) = true ->
  fst (emit_all records self) = Ok tt /\
  calm (faults (stream (snd (emit_all records self)))) = true.
Proof.
  intros Hsilent Hall. revert self Hsilent.
  induction Hall as [|r rs (Hfmt & Hmsg) _ IH]; intros self Hsilent Hcalm.
  - split; [reflexivity | exact Hcalm].
  - destruct (emit_calm r self Hsilent Hfmt Hmsg Hcalm) as (Hret & Hsilent' & Hcalm').
    cbn [emit_all]. unfold bind.
    destruct (emit r self) as [[[]|e] s]; cbn in Hret, Hsilent', Hcalm'; [|discriminate].
    now apply IH.
Qed.

Lemma only_interrupts_leave_emit_witness :
  calm (faults (stream closed_stream_handler)) = true /\
  fst (emit_all [bad_format; plain_hello]
         (with_errors Silent (fun _ _ => bare_report) closed_stream_handler)) = Ok tt.
Proof.
  split; [reflexivity|].
  apply (only_interrupts_leave_emit [bad_format; plain_hello]
           (with_errors Silent (fun _ _ => bare_report) closed_stream_handler)).
  - reflexivity.
  - repeat constructor.
  - reflexivity.
Defined.

(** X4.  When every write of a call succeeds and only the final [flush]
    fails (with something other than an interrupt), the [try] block ends
    with the whole output of the call on the stream and with both flags
    updated as a completed call updates them; the record is nevertheless
    passed to [handleError], and the flags stay as updated. *)
Theorem flush_failure_after_full_output record self fmt raw e rest :
  format record = Ok fmt ->
  getMessage record = Ok raw ->
  faults (stream self) =
    replicate (List.length (call_chunks record self)) None ++ Some e :: rest ->
  is_interrupt e = false ->
  exists self1,
    emit_try record self = (Raise e, self1) /\
    wrote self self1 (call_chunks record self) /\
    on_same_line self1 = hasattr record "same_line" || hasattr record "overwrite" /\
    overwriting self1 = hasattr record "overwrite" /\
    emit record self = handleError record e self1 /\
    reported (snd (emit record self)) = reported self ++ [record] /\
    flags (snd (emit record self)) =
      (hasattr record "same_line" || hasattr record "overwrite",
       hasattr record "overwrite").
Proof.
  intros Hfmt Hmsg Hfaults Hint.
  assert (Htry : exists self1,
    emit_try record self = (Raise e, self1) /\
    wrote self self1 (call_chunks record self) /\
    on_same_line self1 = hasattr record "same_line" || hasattr record "overwrite" /\
    overwriting self1 = hasattr record "overwrite" /\
    reported self1 = reported self).
  { revert Hfaults.
    unfold emit_try, wrote, call_chunks, opening, message_text, rewind, closing, text_of.
    rewrite Hfmt, Hmsg.
    destruct (hasattr record "same_line"), (hasattr record "overwrite");
      destruct self as [[] [] term [w fs] rep ch rpt]; cbn; intros ->; cbn;
      eexists; (split; [reflexivity|]); cbn; rewrite <- ?app_assoc; repeat split. }
  destruct Htry as (self1 & Htry & Hw & Hosl & How & Hrep). exists self1.
  assert (Hemit : emit record self = handleError record e self1).
  { unfold emit, try_except. now rewrite Htry, Hint. }
  destruct (handleError_effect record e self1) as (Hr & Hosl' & How' & _).
  rewrite Hemit. repeat split; auto.
  - now rewrite Hr, Hrep.
  - unfold flags. now rewrite Hosl', How', Hosl, How.
Qed.

Lemma flush_failure_after_full_output_witness :
  faults (stream (new_handler newline [None; None; Some broken_pipe])) =
    replicate (List.length (call_chunks plain_hello
                 (new_handler newline [None; None; Some broken_pipe]))) None
      ++ Some broken_pipe :: [] /\
  written (stream (snd (emit_try plain_hello
             (new_handler newline [None; None; Some broken_pipe])))) =
    ["X: Hello"; newline] /\
  reported (snd (emit plain_hello
             (new_handler newline [None; None; Some broken_pipe]))) = [plain_hello].
Proof.
  split; [reflexivity|].
  destruct (flush_failure_after_full_output plain_hello
              (new_handler newline [None; None; Some broken_pipe])
              "X: Hello" "Hello" broken_pipe [] eq_refl eq_refl eq_refl eq_refl)
    as (self1 & Htry & Hw & _ & _ & _ & Hrep & _).
  split; [|exact Hrep].
  rewrite Htry. exact Hw.
Defined.

(** ** Runs of calls on a stream that does not fail *)

Lemma emit_plain_step record self fmt :
  on_same_line self = false ->
  faults (stream self) = [] ->
  plain record = true ->
  format record = Ok fmt ->
  emit record self =
    (Ok tt,
     {| on_same_line := false;
        overwriting := false;
        terminator := terminator self;
        stream := {| written := written (stream self) ++ [fmt; terminator self];
                     faults := [] |};
        reported := reported self;
        stderr := stderr self;
        error_report := error_report self |}).
Proof.
  unfold plain, emit, try_except, emit_try. intros Hosl Hfs Hplain ->.
  apply andb_true_iff in Hplain as (Hsl & Hov).
  apply negb_true_iff in Hsl, Hov. rewrite Hsl, Hov.
  destruct self as [osl ow term [w fs] rep]. cbn in Hosl, Hfs. subst osl fs.
  cbn. unfold with_stream. cbn. now rewrite app_nil_r, <- app_assoc.
Qed.

Lemma emit_same_line_step record self fmt raw :
  on_same_line self = true ->
  faults (stream self) = [] ->
  same_line_only record = true ->
  format record = Ok fmt ->
  getMessage record = Ok raw ->
  emit record self =
    (Ok tt,
     {| on_same_line := true;
        overwriting := false;
        terminator := terminator self;
        stream := {| written := written (stream self) ++ [raw]; faults := [] |};
        reported := reported self;
        stderr := stderr self;
        error_report := error_report self |}).
Proof.
  unfold same_line_only, emit, try_except, emit_try. intros Hosl Hfs Honly -> ->.
  apply andb_true_iff in Honly as (Hsl & Hov).
  apply negb_true_iff in Hov. rewrite Hsl, Hov.
  destruct self as [osl ow term [w fs] rep]. cbn in Hosl, Hfs. subst osl fs.
  cbn. unfold with_stream. cbn. now rewrite app_nil_r.
Qed.

(** X5.  Without the two attributes the handler is a plain stream handler:
    started at the beginning of a line on a stream that does not fail, a
    run of records that carry neither attribute writes, for each record,
    its formatted string and one terminator, reports nothing and ends at
    the beginning of a line.  [getMessage] is not consulted; it may even
    fail. *)
Theorem plain_records_like_StreamHandler records self :
  on_same_line self = false ->
  faults (stream self) = [] ->
  Forall (fun r => plain r = true /\ succeeded (format r) = true) records ->
  exists self',
    emit_all records self = (Ok tt, self') /\
    wrote self self'
      (flat_map (fun r => text_of (format r) ++ [terminator self]) records) /\
    on_same_line self' = false /\
    terminator self' = terminator self /\
    reported self' = reported self.
Proof.
  intros Hosl Hfs Hall. revert self Hosl Hfs.
  induction Hall as [|r rs (Hplain & Hfmt) _ IH]; intros self Hosl Hfs.
  - exists self. unfold wrote. cbn. rewrite app_nil_r. auto.
  - destruct (format r) as [fmt|] eqn:Hf; [|discriminate].
    pose proof (emit_plain_step r self fmt Hosl Hfs Hplain Hf) as Hstep.
    cbn [emit_all]. unfold bind. rewrite Hstep.
    match goal with
    | |- context [emit_all rs ?s] =>
        destruct (IH s eq_refl eq_refl) as (self' & Hrun & Hw & Hosl' & Hterm & Hrep)
    end.
    exists self'. split; [exact Hrun|].
    unfold wrote in *. cbn in Hw, Hterm, Hrep. cbn [flat_map].
    rewrite Hf. cbn [text_of]. rewrite Hw, <- app_assoc. auto.
Qed.

Lemma plain_records_like_StreamHandler_witness :
  on_same_line ProgressHandler_default = false /\
  written (stream (snd (emit_all [plain_hello; done] ProgressHandler_default))) =
    ["X: Hello"; newline; "X: Done"; newline].
Proof.
  split; [reflexivity|].
  destruct (plain_records_like_StreamHandler [plain_hello; done]
              ProgressHandler_default eq_refl eq_refl)
    as (self' & Hrun & Hw & _).
  - repeat constructor.
  - rewrite Hrun. exact Hw.
Defined.

(** X6.  On a stream that does not fail, a run of records that carry
    [same_line] (and not [overwrite]), started in the middle of a line,
    writes the raw bodies one after the other and nothing else: no
    terminator, no backspace chunk, no formatted string.  The handler stays
    in the middle of the line. *)
Theorem same_line_run_writes_bodies records self :
  on_same_line self = true ->
  faults (stream self) = [] ->
  Forall (fun r => same_line_only r = true /\ succeeded (format r) = true /\
                   succeeded (getMessage r) = true) records ->
  exists self',
    emit_all records self = (Ok tt, self') /\
    wrote self self' (flat_map (fun r => text_of (getMessage r)) records) /\
    on_same_line self' = true /\
    (records <> [] -> overwriting self' = false) /\
    reported self' = reported self.
Proof.
  intros Hosl Hfs Hall. revert self Hosl Hfs.
  induction Hall as [|r rs (Honly & Hfmt & Hmsg) _ IH]; intros self Hosl Hfs.
  - exists self. unfold wrote. cbn. rewrite app_nil_r. repeat split; auto.
    intros H. now destruct H.
  - destruct (format r) as [fmt|] eqn:Hf; [|discriminate].
    destruct (getMessage r) as [raw|] eqn:Hg; [|discriminate].
    pose proof (emit_same_line_step r self fmt raw Hosl Hfs Honly Hf Hg) as Hstep.
    cbn [emit_all]. unfold bind. rewrite Hstep.
    match goal with
    | |- context [emit_all rs ?s] =>
        destruct (IH s eq_refl eq_refl) as (self' & Hrun & Hw & Hosl' & How & Hrep)
    end.
    exists self'. split; [exact Hrun|].
    unfold wrote in *. cbn in Hw, Hrep. cbn [flat_map].
    rewrite Hg. cbn [text_of]. rewrite Hw, <- app_assoc.
    repeat split; auto. intros _.
    destruct rs as [|r' rs'].
    + cbn in Hrun. injection Hrun as <-. reflexivity.
    + now apply How.
Qed.

Lemma same_line_run_writes_bodies_witness :
  on_same_line after_loading = true /\
  wrote after_loading (snd (emit_all [same_a; same_b] after_loading)) ["a"; "b"].
Proof.
  split; [reflexivity|].
  destruct (same_line_run_writes_bodies [same_a; same_b] after_loading eq_refl eq_refl)
    as (self' & Hrun & Hw & _).
  - repeat constructor.
  - rewrite Hrun. exact Hw.
Defined.

(** X7.  A record without attributes that follows a same-line record is
    put on a line of its own, but as its raw body: the call writes a
    terminator, the unformatted message and a terminator, and the formatted
    string (level, logger name and so on) does not reach the stream. *)
Theorem context_dropped_after_same_line record self self' :
  on_same_line self = true ->
  overwriting self = false ->
  plain record = true ->
  completes record self self' ->
  exists raw,
    getMessage record = Ok raw /\
    wrote self self' [terminator self; raw; terminator self] /\
    flags self' = (false, false).
Proof.
  intros Hosl How Hplain Hdone.
  apply andb_true_iff in Hplain as (Hsl & Hov).
  apply negb_true_iff in Hsl, Hov.
  destruct (completes_effect _ _ _ Hdone)
    as (fmt & text & _ & Htext & _ & Hosl' & How' & _ & _ & Hw).
  unfold message_text in Htext. unfold opening, rewind, closing in Hw.
  rewrite Hosl in Htext. rewrite Hosl, How, Hsl, Hov in Hw.
  rewrite Hsl, Hov in Hosl'. rewrite Hov in How'.
  exists text. split; [exact Htext|]. split; [exact Hw|].
  unfold flags. now rewrite Hosl', How'.
Qed.

Lemma context_dropped_after_same_line_witness :
  completes plain_hello after_same_a (snd (emit_try plain_hello after_same_a)) /\
  written (stream (snd (emit_try plain_hello after_same_a))) =
    ["X: a"; newline; "Hello"; newline].
Proof.
  split; [reflexivity|].
  destruct (context_dropped_after_same_line plain_hello after_same_a
              (snd (emit_try plain_hello after_same_a))
              eq_refl eq_refl eq_refl eq_refl)
    as (raw & Hraw & Hw & _).
  injection Hraw as <-. exact Hw.
Defined.

Lemma emit_overwrite_step record self fmt raw :
  on_same_line self = true ->
  overwriting self = true ->
  faults (stream self) = [] ->
  hasattr record "overwrite" = true ->
  format record = Ok fmt ->
  getMessage record = Ok raw ->
  emit record self =
    (Ok tt,
     {| on_same_line := true;
        overwriting := true;
        terminator := terminator self;
        stream := {| written := written (stream self) ++ [raw; backspaces (len raw)];
                     faults := [] |};
        reported := reported self;
        stderr := stderr self;
        error_report := error_report self |}).
Proof.
  unfold emit, try_except, emit_try. intros Hosl How Hfs Hov -> ->. rewrite Hov.
  destruct self as [osl ow term [w fs] rep]. cbn in Hosl, How, Hfs. subst osl ow fs.
  destruct (hasattr record "same_line"); cbn; unfold with_stream; cbn;
    now rewrite app_nil_r, <- app_assoc.
Qed.

(** X8.  Redrawing in place: once the handler is in overwrite mode, on a
    stream that does not fail, a run of records carrying [overwrite] writes,
    for each record, its raw body followed by the character 0x08 repeated as
    many times as the body has characters, and nothing else; no terminator
    separates the redraws, and the handler stays in overwrite mode. *)
Theorem overwrite_run_redraws_in_place records self :
  on_same_line self = true ->
  overwriting self = true ->
  faults (stream self) = [] ->
  Forall (fun r => hasattr r "overwrite" = true /\ succeeded (format r) = true /\
                   succeeded (getMessage r) = true) records ->
  exists self',
    emit_all records self = (Ok tt, self') /\
    wrote self self'
      (flat_map
         (fun r => match getMessage r with
                   | Ok raw =>
                       [raw; string_of_list_ascii
                               (List.repeat "008"%char (String.length raw))]
                   | Raise _ => []
                   end) records) /\
    flags self' = (true, true) /\
    reported self' = reported self.
Proof.
  intros Hosl How Hfs Hall. revert self Hosl How Hfs.
  induction Hall as [|r rs (Hov & Hfmt & Hmsg) _ IH]; intros self Hosl How Hfs.
  - exists self. unfold wrote, flags. cbn. rewrite app_nil_r, Hosl, How. auto.
  - destruct (format r) as [fmt|] eqn:Hf; [|discriminate].
    destruct (getMessage r) as [raw|] eqn:Hg; [|discriminate].
    pose proof (emit_overwrite_step r self fmt raw Hosl How Hfs Hov Hf Hg) as Hstep.
    cbn [emit_all]. unfold bind. rewrite Hstep.
    match goal with
    | |- context [emit_all rs ?s] =>
        destruct (IH s eq_refl eq_refl eq_refl) as (self' & Hrun & Hw & Hfl & Hrep)
    end.
    exists self'. split; [exact Hrun|].
    unfold wrote in *. cbn in Hw, Hrep. cbn [flat_map].
    rewrite Hg. rewrite Hw, <- !app_assoc, backspaces_spelled. auto.
Qed.

Lemma overwrite_run_redraws_in_place_witness :
  flags after_loading = (true, true) /\
  wrote after_loading (snd (emit_all [loading; loading] after_loading))
    ["Loading"; string_of_list_ascii (List.repeat "008"%char 7);
     "Loading"; string_of_list_ascii (List.repeat "008"%char 7)].
Proof.
  split; [reflexivity|].
  destruct (overwrite_run_redraws_in_place [loading; loading] after_loading
              eq_refl eq_refl eq_refl)
    as (self' & Hrun & Hw & _).
  - repeat constructor.
  - rewrite Hrun. exact Hw.
Defined.

(** ** The demonstration script *)

(** X9.  Run on a fresh handler whose stream does not fail, the
    demonstration script returns without reporting any record and leaves
    the handler at the beginning of a line.  Whatever the formatter and the
    terminator are, the stream receives: the first message formatted and
    terminated; the formatted same-line header followed by the five counters
    as bare bodies; the next message on a line of its own but unformatted;
    the message to overwrite, formatted, and 31 characters 0x08 (the length
    of its body, not of the formatted string); its replacement, unformatted,
    and a terminator; the formatted bar header, the bar background and 41
    characters 0x08; forty "=" and finally "DONE", unformatted, between two
    terminators. *)
Theorem main_output formatter term channel report :
  fst (main formatter (with_errors channel report (new_handler term []))) = Ok tt /\
  written (stream (snd (main formatter
                          (with_errors channel report (new_handler term []))))) =
    [ formatter "Regular message"; term;
      formatter "Messages on the same line: ";
      "0 "; "1 "; "2 "; "3 "; "4 ";
      term; "A regular message automatically adds a trailing newline"; term;
      formatter "This message can be overwritten";
      string_of_list_ascii (List.repeat "008"%char 31);
      "Now the message has been replaced"; term;
      formatter "Progress: [";
      "                                        ]";
      string_of_list_ascii (List.repeat "008"%char 41) ]
    ++ replicate 40 "="
    ++ [ term; "DONE"; term ] /\
  flags (snd (main formatter
                (with_errors channel report (new_handler term [])))) = (false, false) /\
  reported (snd (main formatter
                   (with_errors channel report (new_handler term [])))) = [].
Proof. repeat split. Qed.

(** ** Stream operations and error reports of a call *)

(** X10.  A call needs one stream operation per chunk and one for the
    flush: when [format] and [getMessage] succeed and the stream accepts
    that many operations, the call completes and has written all its
    chunks, whatever the stream does afterwards. *)
Theorem call_completes_when_stream_accepts record self fmt raw :
  format record = Ok fmt ->
  getMessage record = Ok raw ->
  accepts (S (List.length (call_chunks record self))) (stream self) = true ->
  exists self',
    completes record self self' /\
    emit record self = (Ok tt, self') /\
    wrote self self' (call_chunks record self).
Proof.
  intros Hfmt Hmsg Hacc.
  assert (Hdone : exists self', completes record self self').
  { revert Hacc.
    unfold completes, emit_try, accepts, call_chunks, opening, message_text,
      rewind, closing, text_of.
    rewrite Hfmt, Hmsg.
    destruct (hasattr record "same_line"), (hasattr record "overwrite");
      destruct self as [[] [] term [w fs] rep]; cbn;
      destruct fs as [|[?|] [|[?|] [|[?|] [|[?|] fs]]]]; cbn;
      try discriminate; eauto. }
  destruct Hdone as (self' & Hdone). exists self'.
  split; [exact Hdone|]. split; [now apply completes_emit|].
  destruct (completes_effect _ _ _ Hdone)
    as (fmt' & text & _ & Htext & _ & _ & _ & _ & _ & Hw).
  unfold call_chunks. now rewrite Htext.
Qed.

Lemma call_completes_when_stream_accepts_witness :
  accepts (S (List.length (call_chunks plain_hello
             (new_handler newline [None; None; None; Some broken_pipe]))))
    (stream (new_handler newline [None; None; None; Some broken_pipe])) = true /\
  emit plain_hello (new_handler newline [None; None; None; Some broken_pipe]) =
    (Ok tt,
     {| on_same_line := false;
        overwriting := false;
        terminator := newline;
        stream := {| written := ["X: Hello"; newline]; faults := [Some broken_pipe] |};
        reported := [];
        stderr := OwnStream;
        error_report := fun _ _ => bare_report |}).
Proof.
  split; [reflexivity|].
  destruct (call_completes_when_stream_accepts plain_hello
              (new_handler newline [None; None; None; Some broken_pipe])
              "X: Hello" "Hello" eq_refl eq_refl eq_refl)
    as (self' & _ & Hemit & _).
  rewrite Hemit. f_equal. injection Hemit as <-. reflexivity.
Defined.

Lemma emit_reports_at_most_once record self :
  reported (snd (emit record self)) = reported self \/
  reported (snd (emit record self)) = reported self ++ [record].
Proof.
  unfold emit, try_except.
  destruct (emit_try record self) as [[[]|e] s] eqn:Htry;
    destruct (emit_try_frame_at _ _ _ _ Htry) as (Hrep & _).
  - now left.
  - destruct (is_interrupt e); cbn; [rewrite Hrep; auto|].
    destruct (handleError_effect record e s) as (Hr & _).
    right. now rewrite Hr, Hrep.
Qed.

(** X11.  Error reports of a run: [emit] passes to [handleError] only
    records it was called with, each at most once per call and in the order
    of the calls; what a run adds to the reports is a sublist of its
    records. *)
Theorem reports_are_sublist_of_records records self :
  exists failed,
    reported (snd (emit_all records self)) = reported self ++ failed /\
    failed `sublist_of` records.
Proof.
  revert self. induction records as [|r rs IH]; intros self.
  - exists []. cbn. now rewrite app_nil_r.
  - cbn [emit_all]. unfold bind.
    pose proof (emit_reports_at_most_once r self) as Hone.
    destruct (emit r self) as [[[]|e] s]; cbn in Hone.
    + destruct (IH s) as (failed & Hrep & Hsub).
      destruct Hone as [Hone|Hone]; rewrite Hone in Hrep.
      * exists failed. split; [exact Hrep|]. now apply sublist_cons.
      * exists (r :: failed). rewrite <- app_assoc in Hrep.
        split; [exact Hrep|]. now apply sublist_skip.
    + destruct Hone as [Hone|Hone]; cbn; rewrite Hone.
      * exists []. rewrite app_nil_r. split; [reflexivity|]. apply sublist_nil_l.
      * exists [r]. split; [reflexivity|].
        apply sublist_skip, sublist_nil_l.
Qed.
